(** * Tic-tac-toe front end: the Client View and its HTTP collaborator

    A shallow embedding of [src/App.tsx] (the React component [App]) and of
    the small HTTP module ([fetchGameStatus], [sendMove]).

    - React state ([useState]) is a record [AppState]; a callback is a
      function of the values captured at the last render (its closure) that
      yields an action on the pending state and a list of socket emissions.
    - Runtime strings are sequences of UTF-16 code units, as in JavaScript.
    - Values handed to [socket.emit] and [JSON.stringify] are [jsval]. *)

From Stdlib Require Import NArith ZArith Ascii String List Bool Lia.
From stdpp Require Import base list option strings.
Import ListNotations.

#[local] Set Warnings "-register-all".

Local Open Scope Z_scope.
Local Open Scope list_scope.

(** ** JavaScript strings and values *)

(** A JavaScript string: its UTF-16 code units. *)
Definition jsstring := list N.

(** A source literal (ASCII) as a runtime string. *)
Definition lit (s : string) : jsstring :=
  map N_of_ascii (list_ascii_of_string s).

(** Truthiness of a string: every string but the empty one. *)
Definition str_truthy (s : jsstring) : bool :=
  match s with [] => false | _ :: _ => true end.

(** WhiteSpace and LineTerminator code points of ECMAScript, the ones
    [String.prototype.trim] strips: TAB, LF, VT, FF, CR, SP, NBSP, U+1680,
    U+2000..U+200A, LS, PS, U+202F, U+205F, U+3000 and the BOM. *)
Definition is_ws (c : N) : bool :=
  ((9 <=? c) && (c <=? 13) || (c =? 32) || (c =? 160) || (c =? 5760)
   || (8192 <=? c) && (c <=? 8202) || (c =? 8232) || (c =? 8233)
   || (c =? 8239) || (c =? 8287) || (c =? 12288) || (c =? 65279))%N.

Fixpoint trim_start (s : jsstring) : jsstring :=
  match s with
  | [] => []
  | c :: r => if is_ws c then trim_start r else s
  end.

Definition trim_end (s : jsstring) : jsstring := rev (trim_start (rev s)).

(** [String.prototype.trim]. *)
Definition trim (s : jsstring) : jsstring := trim_end (trim_start s).

(** The values that travel as event arguments and JSON data. Object keys
    are written in the source, hence plain [string]s. *)
Inductive jsval : Type :=
| JUndefined
| JNull
| JBool (b : bool)
| JNum (n : Z)
| JStr (s : jsstring)
| JObj (fields : list (string * jsval)).

(** The own property names of a value, when it is an object. *)
Definition field_names (v : jsval) : option (list string) :=
  match v with
  | JObj fields => Some (map fst fields)
  | _ => None
  end.

(** ** Data model of [App.tsx] *)

(** ['X' | 'O'] *)
Inductive Symbol : Type := X | O.

#[global] Instance Symbol_eq_dec : EqDecision Symbol.
Proof. solve_decision. Defined.

Definition sym_str (s : Symbol) : jsstring :=
  match s with X => lit "X" | O => lit "O" end.

(** ['X' | 'O' | null] handed to [socket.emit]. *)
Definition sym_val (s : option Symbol) : jsval :=
  match s with Some x => JStr (sym_str x) | None => JNull end.

(** [interface RoomState]; the index type of [winnerLine] is [number],
    of which only the integers can equal a cell index. *)
Record RoomState : Type := mkRoom {
  board : list (option jsstring);
  players : list jsstring;
  turn : Symbol;
  winnerLine : option (list Z)
}.

(** The five [useState] cells of [App]. *)
Record AppState : Type := mkApp {
  roomId : jsstring;
  joined : bool;
  symbol : option Symbol;
  state : RoomState;
  status : jsstring
}.

(** [Array(9).fill(null)] *)
Definition empty_board : list (option jsstring) := repeat None 9.

(** The initial values given to [useState]. *)
Definition initial_state : AppState :=
  {| roomId := [];
     joined := false;
     symbol := None;
     state := {| board := empty_board; players := []; turn := X;
                 winnerLine := None |};
     status := lit "Waiting for players..." |}.

(** ** Actions of a callback *)

(** One [socket.emit(name, arg)]. *)
Record Emit : Type := mkEmit { ev_name : string; ev_arg : jsval }.

(** What a callback does: it updates the pending state and emits. *)
Definition Act : Type := AppState -> AppState * list Emit.

Definition skip : Act := fun st => (st, []).

Definition andThen (a b : Act) : Act :=
  fun st =>
    let '(st1, e1) := a st in
    let '(st2, e2) := b st1 in
    (st2, e1 ++ e2).

Notation "a ;; b" := (andThen a b) (at level 100, b at level 200, only parsing).

Definition setRoomId (v : jsstring) : Act :=
  fun st => (mkApp v (joined st) (symbol st) (state st) (status st), []).
Definition setJoined (v : bool) : Act :=
  fun st => (mkApp (roomId st) v (symbol st) (state st) (status st), []).
Definition setSymbol (v : option Symbol) : Act :=
  fun st => (mkApp (roomId st) (joined st) v (state st) (status st), []).
Definition setState (v : RoomState) : Act :=
  fun st => (mkApp (roomId st) (joined st) (symbol st) v (status st), []).
Definition setStatus (v : jsstring) : Act :=
  fun st => (mkApp (roomId st) (joined st) (symbol st) (state st) v, []).

Definition socket_emit (name : string) (arg : jsval) : Act :=
  fun st => (st, [mkEmit name arg]).

(** A callback reads the values of the render that created it ([cur]) and
    acts on the pending state, which is that same state when it fires. *)
Definition fire (cb : AppState -> Act) (st : AppState) : AppState * list Emit :=
  cb st st.

(** ** Socket listeners (the [useEffect] body) *)

(** The effect depends on [symbol]: the listeners are registered again
    after every render that changed it, so the [symbol] they read is the
    one of the last render, [symbol cur]. *)

(** [socket.on('joined', ...)] *)
Definition on_joined (data_symbol : Symbol) (cur : AppState) : Act :=
  setSymbol (Some data_symbol) ;;
  setJoined true ;;
  setStatus (lit "Joined as " ++ sym_str data_symbol).

(** [socket.on('full', ...)] *)
Definition on_full (cur : AppState) : Act :=
  setStatus (lit "Room is full").

(** [socket.on('state', ...)] *)
Definition on_state (room : RoomState) (cur : AppState) : Act :=
  setState room ;;
  setStatus (if decide (Some (turn room) = symbol cur)
             then lit "Your turn" else lit "Opponent's turn").

(** [socket.on('gameOver', ...)] *)
Definition on_gameOver (winner : option Symbol) (disconnected : bool)
    (cur : AppState) : Act :=
  if disconnected then setStatus (lit "Opponent disconnected")
  else match winner with
       | None => setStatus (lit "Draw!")
       | Some w =>
           setStatus (if decide (Some w = symbol cur)
                      then lit "You win!" else lit "You lose.")
       end.

(** ** User callbacks *)

(** [board[idx]]: [None] is [undefined] (no such element). *)
Definition board_at (b : list (option jsstring)) (idx : Z)
    : option (option jsstring) :=
  if idx <? 0 then None else b !! Z.to_nat idx.

(** Truthiness of [board[idx]]: [undefined], [null] and [''] are falsy. *)
Definition cell_truthy (c : option (option jsstring)) : bool :=
  match c with
  | Some (Some s) => str_truthy s
  | _ => false
  end.

(** [joinRoom] *)
Definition joinRoom (cur : AppState) : Act :=
  if str_truthy (trim (roomId cur))
  then socket_emit "join" (JStr (roomId cur))
  else skip.

(** [play]; the dependencies of its [useCallback] are all the values it
    reads, so it too reads the last render. *)
Definition play (idx : Z) (cur : AppState) : Act :=
  if negb (joined cur)
     || cell_truthy (board_at (board (state cur)) idx)
     || negb (bool_decide (Some (turn (state cur)) = symbol cur))
  then skip
  else socket_emit "play"
         (JObj [("roomId", JStr (roomId cur));
                ("index", JNum idx);
                ("symbol", sym_val (symbol cur))]).

(** [reset] *)
Definition reset (cur : AppState) : Act :=
  socket_emit "reset" (JStr (roomId cur)).

(** [onChange] of the room input. *)
Definition change_roomId (v : jsstring) (cur : AppState) : Act :=
  setRoomId v.

(** ** Messages and inputs *)

(** What the server may send. The component registers listeners for four
    event names; [MOther] stands for an event of any other name, for which
    no listener exists. *)
Inductive ServerMsg : Type :=
| MJoined (data_symbol : Symbol)
| MFull
| MState (room : RoomState)
| MGameOver (winner : option Symbol) (disconnected : bool)
| MOther (name : string) (arg : jsval).

(** The listener dispatched for a message. *)
Definition on_message (m : ServerMsg) (cur : AppState) : Act :=
  match m with
  | MJoined s => on_joined s cur
  | MFull => on_full cur
  | MState room => on_state room cur
  | MGameOver w d => on_gameOver w d cur
  | MOther _ _ => skip
  end.

(** Everything that can happen to the component. *)
Inductive Input : Type :=
| UChange (v : jsstring)
| UJoin
| UPlay (idx : Z)
| UReset
| Recv (m : ServerMsg).

Definition handler (i : Input) : AppState -> Act :=
  match i with
  | UChange v => change_roomId v
  | UJoin => joinRoom
  | UPlay idx => play idx
  | UReset => reset
  | Recv m => on_message m
  end.

(** One input, handled to completion and followed by a render. *)
Definition step (i : Input) (st : AppState) : AppState * list Emit :=
  fire (handler i) st.

(** A sequence of inputs: the final state and everything emitted. *)
Fixpoint run (ins : list Input) (st : AppState) : AppState * list Emit :=
  match ins with
  | [] => (st, [])
  | i :: rest =>
      let '(st1, e1) := step i st in
      let '(st2, e2) := run rest st1 in
      (st2, e1 ++ e2)
  end.

Definition is_joined_msg (i : Input) : bool :=
  match i with Recv (MJoined _) => true | _ => false end.

(** The event names of the inbound contract. *)
Definition inbound_kinds : list string := ["join"; "play"; "reset"].

(** ** Rendering of the board *)

(** [Array.prototype.includes] on numbers. *)
Definition includes (l : list Z) (i : Z) : bool := existsb (Z.eqb i) l.

(** The props of one [Cell]; [click] is the argument its [onClick] gives to
    [play]. *)
Record CellProps : Type := mkCell {
  value : option jsstring;
  click : Z;
  highlight : bool
}.

(** [state.winnerLine?.includes(i) ?? false] *)
Definition cell_highlight (s : RoomState) (i : nat) : bool :=
  match winnerLine s with
  | Some line => includes line (Z.of_nat i)
  | None => false
  end.

(** [state.board.map((cell, i) => <Cell .../>)] *)
Definition render_board (s : RoomState) : list CellProps :=
  imap (fun i cell => mkCell cell (Z.of_nat i) (cell_highlight s i)) (board s).

(** ** The HTTP module *)

Module Http.

(** A settled promise. *)
Inductive Result (A : Type) : Type :=
| Resolved (a : A)
| Rejected (reason : jsval).
Arguments Resolved {A} a.
Arguments Rejected {A} reason.

Inductive Method : Type := GET | POST.

Record Request : Type := mkRequest {
  url : jsstring;
  method : Method;
  headers : list (string * string);
  body : option jsstring
}.

(** The second argument of [fetch]. *)
Record RequestInit : Type := mkInit {
  init_method : Method;
  init_headers : list (string * string);
  init_body : option jsstring
}.

(** An asynchronous computation: the requests it issued and how it
    settled. *)
Definition Async (A : Type) : Type := list Request * Result A.

Definition ret {A} (a : A) : Async A := ([], Resolved a).

Definition bind {A B} (m : Async A) (k : A -> Async B) : Async B :=
  match m with
  | (log, Resolved a) => let '(log', r) := k a in (log ++ log', r)
  | (log, Rejected e) => (log, Rejected e)
  end.

Notation "'await' x <- m 'in' k" := (bind m (fun x => k))
  (at level 10, x name, m at level 100, k at level 200).

(** A template literal prints an unset value as [undefined]. *)
Definition template (v : option jsstring) : jsstring :=
  match v with Some s => s | None => lit "undefined" end.

Section WithEnvironment.

(** The body type of a response, what the server answers to a request,
    [Response.json] and [JSON.stringify] (which may throw, or give
    [undefined]). *)
Variable Response : Type.
Variable network : Request -> Result Response.
Variable json : Response -> Result jsval.
Variable stringify : jsval -> Result (option jsstring).

(** [import.meta.env.VITE_API_URL] *)
Variable baseUrl : option jsstring.

(** [fetch(url)] is a GET without headers or body; [fetch(url, init)]
    takes them from [init]. *)
Definition fetch (u : jsstring) (init : option RequestInit)
    : Async Response :=
  let req :=
    match init with
    | None => mkRequest u GET [] None
    | Some i => mkRequest u (init_method i) (init_headers i) (init_body i)
    end in
  ([req], network req).

Definition res_json (res : Response) : Async jsval := ([], json res).

Definition JSON_stringify (v : jsval) : Async (option jsstring) :=
  ([], stringify v).

Definition fetchGameStatus : Async jsval :=
  await res <- fetch (template baseUrl ++ lit "/status") None in
  res_json res.

Definition sendMove (moveData : jsval) : Async jsval :=
  await b <- JSON_stringify moveData in
  await res <- fetch (template baseUrl ++ lit "/move")
                 (Some (mkInit POST
                          [("Content-Type", "application/json")] b)) in
  res_json res.

End WithEnvironment.

End Http.

(** ** The rendered view (the JSX that [App] returns) *)

(** [s.startsWith(p)] at position 0, on code units. *)
Fixpoint starts_with (p s : jsstring) : bool :=
  match p, s with
  | [], _ => true
  | _ :: _, [] => false
  | a :: p', b :: s' => (a =? b)%N && starts_with p' s'
  end.

(** [String.prototype.includes]: [t] occurs in [s] at some position. *)
Fixpoint str_includes (s t : jsstring) : bool :=
  starts_with t s
  || match s with
     | [] => false
     | _ :: r => str_includes r t
     end.

(** One [<li>] of the player list: the class of its dot and the name. *)
Record PlayerItem : Type := mkPlayer {
  dot : string;
  name : jsstring
}.

(** [state.players.map((p, idx) => ...)] *)
Definition render_players (s : RoomState) : list PlayerItem :=
  imap (fun idx p =>
          mkPlayer (if (idx =? 0)%nat then "bg-indigo-500" else "bg-pink-500")
                   p)
       (players s).

(** What the component shows: the join form while [joined] is false, the
    game otherwise. The banner is the [Game Over] block. *)
Inductive View : Type :=
| JoinForm (input_value : jsstring) (status_text : jsstring)
| GameView (status_text : jsstring) (cells : list CellProps)
    (banner : bool) (player_items : list PlayerItem).

Definition render (st : AppState) : View :=
  if negb (joined st)
  then JoinForm (roomId st) (status st)
  else GameView (status st) (render_board (state st))
         (str_includes (status st) (lit "win"))
         (render_players (state st)).

(** The [Game Over] block is on screen. *)
Definition banner_shown (st : AppState) : bool :=
  match render st with
  | JoinForm _ _ => false
  | GameView _ _ b _ => b
  end.

(** The user can only act on what is rendered: the room input and the join
    button belong to the join form, the cells and the reset button to the
    game; a cell calls [play] with its own index. The server may send
    anything at any time. *)
Definition available (st : AppState) (i : Input) : bool :=
  match i, render st with
  | Recv _, _ => true
  | UChange _, JoinForm _ _ => true
  | UJoin, JoinForm _ _ => true
  | UPlay idx, GameView _ cells _ _ => existsb (fun c => click c =? idx) cells
  | UReset, GameView _ _ _ _ => true
  | _, _ => false
  end.

(** A sequence of inputs that the rendered views allow, one after the
    other. *)
Fixpoint ui_valid (ins : list Input) (st : AppState) : bool :=
  match ins with
  | [] => true
  | i :: rest => available st i && ui_valid rest (fst (step i st))
  end.

(** * Notions used in the statements *)

(** The four terminal messages. *)
Definition terminal_messages : list jsstring :=
  [lit "Opponent disconnected"; lit "Draw!"; lit "You win!"; lit "You lose."].

(** A cell that shows no mark: [null], or the empty string. *)
Definition cell_empty (c : option jsstring) : Prop :=
  c = None \/ c = Some [].

(** A joined session whose turn it is, on the initial board. *)
Definition ready_state : AppState :=
  mkApp (lit "r1") true (Some X) (state initial_state) (lit "Your turn").

(** A finished room: [X] has the top row. *)
Definition won_room : RoomState :=
  mkRoom [Some (lit "X"); Some (lit "X"); Some (lit "X");
          Some (lit "O"); Some (lit "O"); None; None; None; None]
         [lit "a"; lit "b"] O (Some [0; 1; 2]).

(** The [play] payload built from a room identifier, an index and a
    symbol. *)
Definition play_payload (rid : jsstring) (idx : Z) (s : Symbol) : jsval :=
  JObj [("roomId", JStr rid); ("index", JNum idx); ("symbol", JStr (sym_str s))].

(** The shapes an emission of the component can take in state [st]. *)
Inductive emitted_in (st : AppState) : Emit -> Prop :=
| emitted_join :
    str_truthy (trim (roomId st)) = true ->
    emitted_in st (mkEmit "join" (JStr (roomId st)))
| emitted_play idx s :
    joined st = true -> symbol st = Some s -> turn (state st) = s ->
    emitted_in st (mkEmit "play" (play_payload (roomId st) idx s))
| emitted_reset :
    emitted_in st (mkEmit "reset" (JStr (roomId st))).

(** The message contract of the specification: the fields listed for each
    inbound intent. *)
Definition contract_fields (name : string) : option (list string) :=
  if decide (name = "join") then Some ["roomId"]
  else if decide (name = "play") then Some ["roomId"; "index"; "symbol"]
  else if decide (name = "reset") then Some ["roomId"]
  else None.

(** An emission carries exactly the listed fields: its argument is a record
    whose field names are the listed ones, in some order. *)
Definition carries_contract_fields (e : Emit) : Prop :=
  exists listed names,
    contract_fields (ev_name e) = Some listed
    /\ field_names (ev_arg e) = Some names
    /\ names ≡ₚ listed.

(** The argument each intent goes out with. *)
Definition wire_format (st : AppState) (e : Emit) : Prop :=
  (ev_name e = "join" /\ ev_arg e = JStr (roomId st))
  \/ (ev_name e = "reset" /\ ev_arg e = JStr (roomId st))
  \/ (ev_name e = "play"
      /\ field_names (ev_arg e) = Some ["roomId"; "index"; "symbol"]
      /\ carries_contract_fields e
      /\ exists idx s, ev_arg e = play_payload (roomId st) idx s).

(** A [play] emission carries the symbol [s]. *)
Definition carries_symbol (s : Symbol) (e : Emit) : Prop :=
  ev_name e = "play" ->
  exists rid idx, ev_arg e = play_payload rid idx s.

(** A later grant: the server answers [joined] a second time, with [O],
    then it is [O]'s turn and the user clicks the first cell. *)
Definition regrant : list Input :=
  [Recv (MJoined O);
   Recv (MState (mkRoom empty_board [lit "a"; lit "b"] O None));
   UPlay 0].

(** The first player joins, the room starts, the player clicks cell 4. *)
Definition opening : list Input :=
  [Recv (MState (mkRoom empty_board [lit "a"; lit "b"] X None)); UPlay 4].

(** How a request settles once its response is parsed. *)
Definition parsed {Response : Type}
    (network : Http.Request -> Http.Result Response)
    (json : Response -> Http.Result jsval)
    (req : Http.Request) : Http.Result jsval :=
  match network req with
  | Http.Resolved res => json res
  | Http.Rejected e => Http.Rejected e
  end.

(** Every text the component ever gives to [setStatus], and the initial
    one. *)
Definition status_texts : list jsstring :=
  [lit "Waiting for players..."; lit "Joined as X"; lit "Joined as O";
   lit "Room is full"; lit "Your turn"; lit "Opponent's turn";
   lit "Opponent disconnected"; lit "Draw!"; lit "You win!";
   lit "You lose."].

(** The clicks: the inputs that run [joinRoom], [play] or [reset]. *)
Definition is_click (i : Input) : bool :=
  match i with
  | UJoin | UPlay _ | UReset => true
  | _ => false
  end.

(** Two states that differ at most in their status text. *)
Definition same_but_status (a b : AppState) : Prop :=
  roomId a = roomId b /\ joined a = joined b /\ symbol a = symbol b
  /\ state a = state b.

(** An emission that addresses room [rid]: a [reset] of it or a [play] in
    it. *)
Definition addressed_to (rid : jsstring) (e : Emit) : Prop :=
  e = mkEmit "reset" (JStr rid)
  \/ exists idx s, e = mkEmit "play" (play_payload rid idx s).

(** A session that has typed a room identifier and not joined yet. *)
Definition typed_state : AppState :=
  mkApp (lit "r1") false None (state initial_state)
        (lit "Waiting for players...").

(** A room in which the first cell is taken and it is [X]'s turn. *)
Definition marked_room : RoomState :=
  mkRoom [Some (lit "O"); None; None; None; None; None; None; None; None]
         [lit "a"; lit "b"] X None.

(** * Properties *)

(** ** Helper facts *)

Lemma trim_start_nil_iff (s : jsstring) :
  trim_start s = [] <-> forallb is_ws s = true.
Proof.
  induction s as [|c r IH]; simpl; [tauto|].
  destruct (is_ws c); simpl; [exact IH|].
  split; intros H; discriminate H.
Qed.

Lemma trim_start_suffix (s : jsstring) :
  exists p, s = p ++ trim_start s /\ forallb is_ws p = true.
Proof.
  induction s as [|c r [p [Hp Hw]]]; simpl.
  - exists []. auto.
  - destruct (is_ws c) eqn:Hc.
    + exists (c :: p). simpl. rewrite Hc, Hw. split; [now f_equal|reflexivity].
    + exists []. auto.
Qed.

Lemma forallb_rev {A} (f : A -> bool) (l : list A) :
  forallb f (rev l) = forallb f l.
Proof.
  induction l as [|a l IH]; simpl; [reflexivity|].
  rewrite forallb_app, IH. simpl. rewrite andb_true_r. apply andb_comm.
Qed.

(** The trimmed string is empty exactly when every code unit is white
    space. *)
Lemma trim_nil_iff (s : jsstring) :
  trim s = [] <-> forallb is_ws s = true.
Proof.
  unfold trim, trim_end.
  destruct (trim_start_suffix s) as [p [Hs Hp]].
  split.
  - intros H.
    assert (Hr : trim_start (rev (trim_start s)) = []).
    { destruct (trim_start (rev (trim_start s))) as [|c l]; [reflexivity|].
      apply (f_equal (@length N)) in H. rewrite length_rev in H.
      discriminate H. }
    apply trim_start_nil_iff in Hr. rewrite forallb_rev in Hr.
    rewrite Hs, forallb_app, Hp, Hr. reflexivity.
  - intros H. apply trim_start_nil_iff in H. rewrite H. reflexivity.
Qed.

Lemma str_truthy_trim (s : jsstring) :
  str_truthy (trim s) = negb (forallb is_ws s).
Proof.
  destruct (forallb is_ws s) eqn:H.
  - apply trim_nil_iff in H. rewrite H. reflexivity.
  - destruct (trim s) eqn:Ht; [|reflexivity].
    apply trim_nil_iff in Ht. congruence.
Qed.

Lemma includes_In (l : list Z) (i : Z) : includes l i = true <-> In i l.
Proof.
  unfold includes. rewrite existsb_exists. split.
  - intros [x [Hx He]]. apply Z.eqb_eq in He. now subst.
  - intros H. exists i. split; [exact H|apply Z.eqb_refl].
Qed.

(** No callback of the user changes the state, apart from typing in the
    room input. *)
Lemma joinRoom_state (st : AppState) : fst (fire joinRoom st) = st.
Proof. unfold fire, joinRoom. now destruct (str_truthy _). Qed.

Lemma play_state (idx : Z) (st : AppState) : fst (fire (play idx) st) = st.
Proof. unfold fire, play. now destruct (_ || _). Qed.

Lemma reset_state (st : AppState) : fst (fire reset st) = st.
Proof. reflexivity. Qed.

(** ** C7: the initial state *)

(** C7. Before any server message arrives the local room state has a board
    of exactly 9 cells, every one of them empty ([null]), the turn is [X]
    and the player list is empty. *)
Theorem initial_room_state :
  length (board (state initial_state)) = 9%nat
  /\ Forall (fun c => c = None) (board (state initial_state))
  /\ turn (state initial_state) = X
  /\ players (state initial_state) = [].
Proof.
  repeat split.
  simpl. unfold empty_board. simpl. repeat constructor.
Qed.

(** ** C4: the status after [gameOver] *)

(** C4. On [gameOver{winner, disconnected}] the status becomes exactly one
    of four distinct terminal messages: the disconnect message when
    [disconnected] is true; otherwise the draw message when [winner] is
    null; otherwise the win message when [winner] is the session's own
    symbol, and the loss message when it is not. Nothing else of the local
    state changes and nothing is emitted. *)
Theorem gameOver_status (st : AppState) (winner : option Symbol)
    (disconnected : bool) :
  let st' := fst (step (Recv (MGameOver winner disconnected)) st) in
  (disconnected = true -> status st' = lit "Opponent disconnected")
  /\ (disconnected = false -> winner = None -> status st' = lit "Draw!")
  /\ (disconnected = false -> winner <> None -> winner = symbol st ->
      status st' = lit "You win!")
  /\ (disconnected = false -> winner <> None -> winner <> symbol st ->
      status st' = lit "You lose.")
  /\ NoDup terminal_messages
  /\ status st' ∈ terminal_messages
  /\ (roomId st', joined st', symbol st', state st')
     = (roomId st, joined st, symbol st, state st)
  /\ snd (step (Recv (MGameOver winner disconnected)) st) = [].
Proof.
  assert (Hnd : NoDup terminal_messages).
  { unfold terminal_messages. apply NoDup_ListNoDup.
    repeat (constructor; [vm_compute; intuition discriminate|]).
    constructor. }
  unfold step, fire, handler, on_message, on_gameOver.
  destruct disconnected; [|destruct winner as [w|]];
    try destruct (decide (Some w = symbol st)) as [He|He]; simpl;
    (repeat split; try exact Hnd; try congruence;
     try (apply list_elem_of_In; simpl; tauto)).
Qed.

(** ** C5: the status after [full] *)

(** C5. On [full] the status becomes the room-full message and nothing else
    of the local state changes: the room input, the joined flag, the own
    symbol and the room state (its board included) are as before, so an
    unjoined session without a symbol stays so. A message of any event
    name without a listener changes nothing, and the user's own intents
    never touch the status: no other rejection is shown. *)
Theorem full_status (st : AppState) :
  step (Recv MFull) st
  = (mkApp (roomId st) (joined st) (symbol st) (state st)
       (lit "Room is full"), [])
  /\ (forall name arg, step (Recv (MOther name arg)) st = (st, []))
  /\ fst (step UJoin st) = st
  /\ (forall idx, fst (step (UPlay idx) st) = st)
  /\ fst (step UReset st) = st.
Proof.
  repeat split.
  - apply joinRoom_state.
  - intros idx. apply play_state.
Qed.

(** ** C1: the guard of [play] *)

(** C1. For a cell index [idx] of the local board, holding [cell]:
    [play idx] emits one [play] intent when the session is joined, the cell
    is empty and the local turn is the session's own symbol; in every other
    case it emits nothing. The local state is unchanged in both cases. *)
Theorem play_guard (st : AppState) (idx : Z) (cell : option jsstring) :
  board_at (board (state st)) idx = Some cell ->
  (joined st = true /\ cell_empty cell /\ symbol st = Some (turn (state st)) ->
   step (UPlay idx) st
   = (st, [mkEmit "play"
             (JObj [("roomId", JStr (roomId st));
                    ("index", JNum idx);
                    ("symbol", JStr (sym_str (turn (state st))))])]))
  /\ (~ (joined st = true /\ cell_empty cell
         /\ symbol st = Some (turn (state st))) ->
      step (UPlay idx) st = (st, [])).
Proof.
  intros Hcell. unfold step, fire, handler, play. rewrite Hcell.
  split.
  - intros (Hj & He & Hs). rewrite Hj, Hs.
    rewrite bool_decide_eq_true_2 by reflexivity.
    destruct He as [-> | ->]; reflexivity.
  - intros Hn.
    destruct (joined st) eqn:Hj; [|reflexivity].
    destruct cell as [[|c r]|]; simpl; try reflexivity;
      (destruct (bool_decide_reflect (Some (turn (state st)) = symbol st))
         as [Hs|Hs]; simpl; [|reflexivity]);
      exfalso; apply Hn; unfold cell_empty; auto.
Qed.

Lemma play_guard_witness :
  board_at (board (state ready_state)) 0 = Some None
  /\ snd (step (UPlay 0) ready_state)
     = [mkEmit "play"
          (JObj [("roomId", JStr (lit "r1")); ("index", JNum 0);
                 ("symbol", JStr (lit "X"))])].
Proof.
  split; [reflexivity|].
  destruct (play_guard ready_state 0 None) as [Hyes _]; [reflexivity|].
  rewrite Hyes; [reflexivity|].
  unfold cell_empty; auto.
Defined.

(** Outside the board there is no cell and [board[idx]] is [undefined]:
    the guard lets such an index through. The rendered cells never ask for
    one (see [render_board_cells]). *)
Example play_outside_board :
  board_at (board (state ready_state)) 9 = None
  /\ snd (step (UPlay 9) ready_state)
     = [mkEmit "play" (play_payload (lit "r1") 9 X)].
Proof. split; reflexivity. Qed.

(** ** C9: [joinRoom] and blank room identifiers *)

(** C9. [joinRoom] emits a [join] intent exactly when the room identifier
    is non-empty after trimming, that is when it holds a code unit that is
    not white space; the identifier sent is the one typed, untrimmed.
    Otherwise nothing is emitted. The state is unchanged either way. *)
Theorem joinRoom_trim (st : AppState) :
  (trim (roomId st) <> [] ->
   step UJoin st = (st, [mkEmit "join" (JStr (roomId st))]))
  /\ (trim (roomId st) = [] -> step UJoin st = (st, []))
  /\ (trim (roomId st) <> []
      <-> exists c, In c (roomId st) /\ is_ws c = false).
Proof.
  unfold step, fire, handler, joinRoom.
  rewrite str_truthy_trim, trim_nil_iff.
  split; [|split].
  - intros H. destruct (forallb is_ws (roomId st)); [congruence|reflexivity].
  - intros H. rewrite H. reflexivity.
  - rewrite forallb_forall. split.
    + intros H.
      destruct (existsb (fun c => negb (is_ws c)) (roomId st)) eqn:He.
      * apply existsb_exists in He. destruct He as [c [Hin Hc]].
        exists c. split; [exact Hin|]. now apply negb_true_iff.
      * exfalso. apply H. intros c Hin.
        destruct (is_ws c) eqn:Hc; [reflexivity|].
        assert (Ht : existsb (fun c => negb (is_ws c)) (roomId st) = true).
        { apply existsb_exists. exists c. rewrite Hc. auto. }
        congruence.
    + intros [c [Hin Hc]] H. specialize (H c Hin). congruence.
Qed.

(** The identifier goes out with its surrounding blanks. *)
Example joinRoom_sends_untrimmed :
  let st := mkApp (lit " r1 ") false None (state initial_state) [] in
  trim (roomId st) = lit "r1"
  /\ snd (step UJoin st) = [mkEmit "join" (JStr (lit " r1 "))].
Proof. split; reflexivity. Qed.

(** A blank identifier is not sent. *)
Example joinRoom_blank :
  let st := mkApp (lit "   ") false None (state initial_state) [] in
  step UJoin st = (st, []).
Proof. reflexivity. Qed.

(** ** C10: highlighted cells *)

Lemma render_board_lookup (s : RoomState) (i : nat) (c : CellProps) :
  render_board s !! i = Some c ->
  exists cell, board s !! i = Some cell
               /\ c = mkCell cell (Z.of_nat i) (cell_highlight s i).
Proof.
  unfold render_board. rewrite list_lookup_imap.
  destruct (board s !! i) as [cell|]; simpl; intros H; [|discriminate H].
  exists cell. split; [reflexivity|]. now inversion H.
Qed.

(** C10. In the rendered board the cell of index [i] is highlighted if and
    only if the room state has a winner line and that line contains [i];
    without a winner line no cell is highlighted. *)
Theorem highlight_iff (s : RoomState) (i : nat) (c : CellProps) :
  render_board s !! i = Some c ->
  (highlight c = true
   <-> exists line, winnerLine s = Some line /\ In (Z.of_nat i) line)
  /\ (winnerLine s = None -> highlight c = false).
Proof.
  intros H. apply render_board_lookup in H. destruct H as [cell [_ ->]].
  simpl. unfold cell_highlight.
  destruct (winnerLine s) as [line|]; split.
  - rewrite includes_In. split.
    + intros Hin. exists line. auto.
    + intros [l [Hl Hin]]. now inversion Hl; subst.
  - discriminate.
  - split; [discriminate|]. intros [l [Hl _]]. discriminate Hl.
  - reflexivity.
Qed.

Lemma highlight_iff_witness :
  render_board won_room !! 1%nat = Some (mkCell (Some (lit "X")) 1 true)
  /\ exists line, winnerLine won_room = Some line /\ In 1 line.
Proof.
  split; [reflexivity|].
  destruct (highlight_iff won_room 1 (mkCell (Some (lit "X")) 1 true))
    as [[Hto _] _]; [reflexivity|].
  apply Hto. reflexivity.
Defined.

(** Every cell of the board is rendered, in order, and clicking the cell of
    index [i] plays [i]. *)
Lemma render_board_cells (s : RoomState) :
  map value (render_board s) = board s
  /\ map click (render_board s) = map Z.of_nat (List.seq 0 (length (board s))).
Proof.
  unfold render_board. split.
  - apply list_eq. intros i.
    rewrite list_lookup_fmap, list_lookup_imap.
    now destruct (board s !! i).
  - apply list_eq. intros i.
    rewrite !list_lookup_fmap, list_lookup_imap.
    destruct (board s !! i) as [cell|] eqn:Hi; simpl.
    + apply lookup_lt_Some in Hi.
      rewrite lookup_seq_lt by exact Hi. reflexivity.
    + apply lookup_ge_None in Hi.
      rewrite lookup_seq_ge by exact Hi. reflexivity.
Qed.

(** ** What one input can emit *)

Lemma step_emitted (i : Input) (st : AppState) :
  Forall (emitted_in st) (snd (step i st)).
Proof.
  destruct i as [v| |idx| |m]; unfold step, fire, handler.
  - constructor.
  - unfold joinRoom. destruct (str_truthy _) eqn:Ht; simpl; repeat constructor.
    exact Ht.
  - unfold play.
    destruct (joined st) eqn:Hj; simpl; [|constructor].
    destruct (cell_truthy _); simpl; [constructor|].
    destruct (bool_decide_reflect (Some (turn (state st)) = symbol st))
      as [Hs|Hs]; simpl; [|constructor].
    rewrite <- Hs. repeat constructor; auto.
  - repeat constructor.
  - destruct m as [s| |room|w d|name arg]; simpl; try constructor.
    destruct d; [constructor|]. destruct w; constructor.
Qed.

(** A property of every emission of every step holds along a run. *)
Lemma run_emitted (P : Emit -> Prop) :
  (forall i st, Forall P (snd (step i st))) ->
  forall ins st, Forall P (snd (run ins st)).
Proof.
  intros Hstep ins. induction ins as [|i ins IH]; intros st; simpl.
  - constructor.
  - specialize (Hstep i st). destruct (step i st) as [st1 e1].
    specialize (IH st1). destruct (run ins st1) as [st2 e2]. simpl in *.
    apply Forall_app. split; assumption.
Qed.

(** ** C3: only inbound intents are emitted *)

(** C3. Whatever the user does and whatever the server sends, every event
    the component emits over the socket is named [join], [play] or
    [reset]. *)
Theorem emits_only_inbound (ins : list Input) (st : AppState) :
  Forall (fun e => ev_name e ∈ inbound_kinds) (snd (run ins st)).
Proof.
  revert ins st. apply run_emitted. intros i st.
  eapply Forall_impl; [apply step_emitted|].
  intros e He. simpl. unfold inbound_kinds.
  destruct He; simpl; apply list_elem_of_In; simpl; tauto.
Qed.

(** The server's messages make the component emit nothing at all. *)
Lemma recv_emits_nothing (m : ServerMsg) (st : AppState) :
  snd (step (Recv m) st) = [].
Proof.
  destruct m as [s| |room|w d|name arg]; try reflexivity.
  unfold step, fire. simpl. unfold on_gameOver.
  destruct d; [reflexivity|]. now destruct w.
Qed.

(** ** C2: the fields of the emitted intents *)

(** C2, as stated, fails: the [join] intent emitted for room [r1] carries
    the bare string, which has no field [roomId]. *)
Lemma join_payload_not_record :
  snd (step UJoin ready_state) = [mkEmit "join" (JStr (lit "r1"))]
  /\ ~ carries_contract_fields (mkEmit "join" (JStr (lit "r1")))
  /\ ~ (forall i st, Forall carries_contract_fields (snd (step i st))).
Proof.
  assert (Hno : ~ carries_contract_fields (mkEmit "join" (JStr (lit "r1")))).
  { intros (listed & names & _ & Hn & _). discriminate Hn. }
  split; [reflexivity|]. split; [exact Hno|].
  intros H. specialize (H UJoin ready_state).
  change (snd (step UJoin ready_state))
    with [mkEmit "join" (JStr (lit "r1"))] in H.
  inversion H; subst. contradiction.
Qed.

(** So does [reset]. *)
Lemma reset_payload_not_record :
  snd (step UReset ready_state) = [mkEmit "reset" (JStr (lit "r1"))]
  /\ ~ carries_contract_fields (mkEmit "reset" (JStr (lit "r1"))).
Proof.
  split; [reflexivity|].
  intros (listed & names & _ & Hn & _). discriminate Hn.
Qed.

(** C2, amended. Every [play] intent carries a record with exactly the
    fields [roomId], [index] and [symbol]; [join] and [reset] carry the room
    identifier itself, a bare string, as their only argument. *)
Theorem emitted_wire_format (i : Input) (st : AppState) :
  Forall (wire_format st) (snd (step i st)).
Proof.
  eapply Forall_impl; [apply step_emitted|].
  intros e He. unfold wire_format. destruct He as [Ht|idx s Hj Hs Ht|]; simpl.
  - left. auto.
  - right. right. repeat split.
    + exists ["roomId"; "index"; "symbol"], ["roomId"; "index"; "symbol"].
      split; [reflexivity|]. split; reflexivity.
    + exists idx, s. reflexivity.
  - right. left. auto.
Qed.

(** ** C6: the granted symbol *)

(** Only a [joined] message changes the own symbol. *)
Lemma step_symbol (i : Input) (st : AppState) :
  is_joined_msg i = false -> symbol (fst (step i st)) = symbol st.
Proof.
  intros Hi. destruct i as [v| |idx| |m]; try reflexivity.
  - exact (f_equal symbol (joinRoom_state st)).
  - exact (f_equal symbol (play_state idx st)).
  - destruct m as [s| |room|w d|name arg]; try reflexivity; [discriminate Hi|].
    unfold step, fire. simpl. unfold on_gameOver.
    destruct d; [reflexivity|]. now destruct w.
Qed.

Lemma step_carries (s : Symbol) (i : Input) (st : AppState) :
  symbol st = Some s -> Forall (carries_symbol s) (snd (step i st)).
Proof.
  intros Hs. eapply Forall_impl; [apply step_emitted|].
  intros e He Hname. destruct He as [Ht|idx s' Hj Hs' Ht|]; simpl in *;
    try discriminate Hname.
  exists (roomId st), idx. rewrite Hs in Hs'. now inversion Hs'.
Qed.

Lemma run_carries (s : Symbol) (ins : list Input) :
  existsb is_joined_msg ins = false ->
  forall st, symbol st = Some s -> Forall (carries_symbol s) (snd (run ins st)).
Proof.
  induction ins as [|i ins IH]; intros Hno st Hs; simpl.
  - constructor.
  - simpl in Hno. apply orb_false_iff in Hno. destruct Hno as [Hi Hno].
    pose proof (step_carries s i st Hs) as Hc.
    pose proof (step_symbol i st Hi) as Hk.
    destruct (step i st) as [st1 e1]. simpl in *.
    assert (Hs1 : symbol st1 = Some s) by congruence.
    specialize (IH Hno st1 Hs1).
    destruct (run ins st1) as [st2 e2]. simpl in *.
    apply Forall_app. split; assumption.
Qed.

(** C6, as stated, fails: after [joined{X}] the inputs [regrant] make the
    component emit a [play] that carries [O]. *)
Lemma regrant_replaces_symbol :
  snd (run regrant (fst (step (Recv (MJoined X)) initial_state)))
  = [mkEmit "play" (play_payload [] 0 O)]
  /\ ~ Forall (carries_symbol X)
         (snd (run regrant (fst (step (Recv (MJoined X)) initial_state)))).
Proof.
  split; [reflexivity|].
  intros H.
  change (snd (run regrant (fst (step (Recv (MJoined X)) initial_state))))
    with [mkEmit "play" (play_payload [] 0 O)] in H.
  inversion H as [|e l He _]; subst.
  destruct (He eq_refl) as (rid & idx & Heq).
  vm_compute in Heq. discriminate Heq.
Qed.

(** C6, amended. On [joined{symbol}] the component records the received
    symbol as its own and marks the session as joined, touching nothing but
    the status besides; as long as no further [joined] message arrives,
    every [play] intent it emits afterwards carries exactly that symbol. *)
Theorem joined_symbol_carried (st : AppState) (s : Symbol)
    (ins : list Input) :
  existsb is_joined_msg ins = false ->
  let st1 := fst (step (Recv (MJoined s)) st) in
  st1 = mkApp (roomId st) true (Some s) (state st)
          (lit "Joined as " ++ sym_str s)
  /\ symbol (fst (run ins st1)) = Some s
  /\ Forall (carries_symbol s) (snd (run ins st1)).
Proof.
  intros Hno st1. split; [reflexivity|]. split.
  - assert (Hs : symbol st1 = Some s) by reflexivity.
    clearbody st1. revert st1 Hs.
    induction ins as [|i ins IH]; intros st1 Hs; simpl; [exact Hs|].
    simpl in Hno. apply orb_false_iff in Hno. destruct Hno as [Hi Hno].
    pose proof (step_symbol i st1 Hi) as Hk.
    destruct (step i st1) as [st2 e1]. simpl in Hk.
    specialize (IH Hno st2 ltac:(congruence)).
    now destruct (run ins st2).
  - apply run_carries; [exact Hno|reflexivity].
Qed.

Lemma joined_symbol_carried_witness :
  existsb is_joined_msg opening = false
  /\ snd (run opening (fst (step (Recv (MJoined X)) initial_state)))
     = [mkEmit "play" (play_payload [] 4 X)]
  /\ Forall (carries_symbol X)
       (snd (run opening (fst (step (Recv (MJoined X)) initial_state)))).
Proof.
  split; [reflexivity|]. split; [reflexivity|].
  apply (joined_symbol_carried initial_state X opening). reflexivity.
Defined.

(** ** C8: the HTTP module *)

(** C8. With base URL [u], [fetchGameStatus] issues one request, a GET of
    [u/status] without headers or body, and settles as the parsed JSON body
    of the response. [sendMove] issues one request, a POST to [u/move] with
    the header [Content-Type: application/json] and the serialized move
    data as body, and settles as the parsed JSON body of the response; when
    the serialization throws, it issues no request and rejects. *)
Theorem http_requests (Response : Type)
    (network : Http.Request -> Http.Result Response)
    (json : Response -> Http.Result jsval)
    (stringify : jsval -> Http.Result (option jsstring))
    (u : jsstring) (moveData : jsval) :
  let get := Http.mkRequest (u ++ lit "/status") Http.GET [] None in
  let post b :=
    Http.mkRequest (u ++ lit "/move") Http.POST
      [("Content-Type", "application/json")] b in
  Http.fetchGameStatus Response network json (Some u)
  = ([get], parsed network json get)
  /\ Http.sendMove Response network json stringify (Some u) moveData
     = match stringify moveData with
       | Http.Resolved b => ([post b], parsed network json (post b))
       | Http.Rejected e => ([], Http.Rejected e)
       end.
Proof.
  intros get post. unfold Http.fetchGameStatus, Http.sendMove, parsed.
  unfold Http.JSON_stringify, Http.fetch, Http.res_json, Http.bind.
  simpl. fold get. split.
  - destruct (network get); reflexivity.
  - destruct (stringify moveData) as [b|e]; [|reflexivity].
    simpl. fold (post b). destruct (network (post b)); reflexivity.
Qed.

(** A server that answers every request with the body [null], and a
    serializer that prints every move as [{}]. *)
Example sendMove_example :
  Http.sendMove unit (fun _ => Http.Resolved tt) (fun _ => Http.Resolved JNull)
    (fun _ => Http.Resolved (Some (lit "{}"))) (Some (lit "http://h"))
    (JObj [])
  = ([Http.mkRequest (lit "http://h/move") Http.POST
        [("Content-Type", "application/json")] (Some (lit "{}"))],
     Http.Resolved JNull).
Proof. reflexivity. Qed.

(** Without a configured base URL the path is requested under
    [undefined]. *)
Example fetchGameStatus_unset :
  fst (Http.fetchGameStatus unit (fun _ => Http.Resolved tt)
         (fun _ => Http.Resolved JNull) None)
  = [Http.mkRequest (lit "undefined/status") Http.GET [] None].
Proof. reflexivity. Qed.

(** * Further properties of the component *)

(** ** How one input moves the state *)

Lemma click_state (i : Input) (st : AppState) :
  is_click i = true -> fst (step i st) = st.
Proof.
  destruct i as [v| |idx| |m]; intros H; try discriminate H.
  - apply joinRoom_state.
  - apply play_state.
  - reflexivity.
Qed.

(** Only [joined] writes [joined] and [symbol], and it writes both. *)
Lemma step_session (i : Input) (st : AppState) :
  (joined (fst (step i st)) = joined st
   /\ symbol (fst (step i st)) = symbol st)
  \/ (exists s, i = Recv (MJoined s)
                /\ joined (fst (step i st)) = true
                /\ symbol (fst (step i st)) = Some s).
Proof.
  destruct i as [v| |idx| |m].
  - left. split; reflexivity.
  - left. unfold step. simpl handler. now rewrite joinRoom_state.
  - left. unfold step. simpl handler. now rewrite play_state.
  - left. split; reflexivity.
  - destruct m as [s| |room|w d|nm arg].
    + right. exists s. repeat split.
    + left. split; reflexivity.
    + left. split; reflexivity.
    + left. unfold step, fire. simpl. unfold on_gameOver.
      destruct d; [split; reflexivity|]. destruct w; split; reflexivity.
    + left. split; reflexivity.
Qed.

(** Only typing in the room input writes [roomId]. *)
Lemma step_roomId (i : Input) (st : AppState) :
  (forall v, i <> UChange v) -> roomId (fst (step i st)) = roomId st.
Proof.
  intros Hi. destruct i as [v| |idx| |m].
  - now destruct (Hi v).
  - unfold step. simpl handler. now rewrite joinRoom_state.
  - unfold step. simpl handler. now rewrite play_state.
  - reflexivity.
  - destruct m as [s| |room|w d|nm arg]; try reflexivity.
    unfold step, fire. simpl. unfold on_gameOver.
    destruct d; [reflexivity|]. now destruct w.
Qed.

(** A property that every step keeps holds after a run. *)
Lemma run_invariant (P : AppState -> Prop) :
  (forall i st, P st -> P (fst (step i st))) ->
  forall ins st, P st -> P (fst (run ins st)).
Proof.
  intros Hstep ins. induction ins as [|i ins IH]; intros st HP; simpl.
  - exact HP.
  - specialize (Hstep i st HP). destruct (step i st) as [st1 e1].
    specialize (IH st1 Hstep). now destruct (run ins st1).
Qed.

Lemma run_cons (i : Input) (ins : list Input) (st : AppState) :
  run (i :: ins) st
  = (fst (run ins (fst (step i st))),
     snd (step i st) ++ snd (run ins (fst (step i st)))).
Proof.
  cbn [run]. destruct (step i st) as [st1 e1]. cbn [fst snd].
  now destruct (run ins st1).
Qed.

Lemma run_app (ins1 ins2 : list Input) (st : AppState) :
  run (ins1 ++ ins2) st
  = (fst (run ins2 (fst (run ins1 st))),
     snd (run ins1 st) ++ snd (run ins2 (fst (run ins1 st)))).
Proof.
  revert st. induction ins1 as [|i ins1 IH]; intros st.
  - simpl. now destruct (run ins2 st).
  - rewrite <- app_comm_cons, !run_cons, IH. simpl.
    now rewrite app_assoc.
Qed.

Lemma step_status (i : Input) (st : AppState) :
  status st ∈ status_texts -> status (fst (step i st)) ∈ status_texts.
Proof.
  intros Hst.
  assert (Hin : forall t, In t status_texts -> t ∈ status_texts)
    by (intros t; apply list_elem_of_In).
  destruct i as [v| |idx| |m].
  - exact Hst.
  - unfold step. simpl handler. now rewrite joinRoom_state.
  - unfold step. simpl handler. now rewrite play_state.
  - exact Hst.
  - destruct m as [s| |room|w d|nm arg]; unfold step, fire; simpl.
    + apply Hin. destruct s; simpl; tauto.
    + apply Hin. simpl; tauto.
    + apply Hin. destruct (decide _); simpl; tauto.
    + unfold on_gameOver. destruct d; [apply Hin; simpl; tauto|].
      destruct w as [w|]; [|apply Hin; simpl; tauto].
      simpl. apply Hin. destruct (decide _); simpl; tauto.
    + exact Hst.
Qed.

(** ** X1: joined and symbol go together *)

(** X1. In every state the component can reach from its initial state,
    whatever the user does and the server sends, the session is marked as
    joined exactly when it has a symbol. *)
Theorem reachable_joined_iff_symbol (ins : list Input) :
  joined (fst (run ins initial_state)) = true
  <-> symbol (fst (run ins initial_state)) <> None.
Proof.
  apply (run_invariant (fun st => joined st = true <-> symbol st <> None)).
  - intros i st Hinv.
    destruct (step_session i st) as [[Hj Hs]|(s & _ & Hj & Hs)].
    + now rewrite Hj, Hs.
    + rewrite Hj, Hs. split; [discriminate|reflexivity].
  - simpl. split; [discriminate|congruence].
Qed.

(** ** X2: a joined session stays joined *)

(** X2. Once the session is joined, no input clears the flag again: the
    game stays on screen, and neither the join button nor the room input is
    available any more. *)
Theorem joined_never_cleared (st : AppState) (ins : list Input) :
  joined st = true ->
  let st' := fst (run ins st) in
  joined st' = true
  /\ available st' UJoin = false
  /\ (forall v, available st' (UChange v) = false)
  /\ available st' UReset = true.
Proof.
  intros Hj st'.
  assert (Hj' : joined st' = true).
  { unfold st'. apply (run_invariant (fun s => joined s = true)); [|exact Hj].
    intros i s Hs. destruct (step_session i s) as [[H _]|(_ & _ & H & _)];
      congruence. }
  unfold available, render. rewrite Hj'. simpl. auto.
Qed.

Lemma joined_never_cleared_witness :
  joined ready_state = true
  /\ joined (fst (run [Recv MFull; Recv (MGameOver None true); UReset]
                    ready_state)) = true.
Proof.
  split; [reflexivity|].
  apply (joined_never_cleared ready_state
           [Recv MFull; Recv (MGameOver None true); UReset]).
  reflexivity.
Defined.

(** ** X3: the status texts and the [Game Over] block *)

(** X3. The status shown is always one of ten fixed texts, and the
    [Game Over] block, which is rendered when the status contains [win], is
    on screen exactly when the session is joined and the status is the win
    message: a loss, a draw or a disconnect does not show it. *)
Theorem banner_only_on_win (ins : list Input) :
  let st := fst (run ins initial_state) in
  status st ∈ status_texts
  /\ (banner_shown st = true
      <-> joined st = true /\ status st = lit "You win!").
Proof.
  intros st.
  assert (Hst : status st ∈ status_texts).
  { unfold st. apply (run_invariant (fun s => status s ∈ status_texts)).
    - intros i s. apply step_status.
    - apply list_elem_of_In. simpl. tauto. }
  split; [exact Hst|].
  unfold banner_shown, render.
  destruct (joined st); simpl; [|split; [discriminate|intros [H _]; discriminate H]].
  apply list_elem_of_In in Hst. simpl in Hst.
  repeat (destruct Hst as [<- | Hst];
          [vm_compute; split;
           [intros H; try discriminate H; split; reflexivity
           |intros [_ H]; try discriminate H; reflexivity]|]).
  destruct Hst.
Qed.

(** ** X4: clicks do not change the state *)

(** X4. The clicks ([joinRoom], [play], [reset]) leave the whole local
    state as it is: the board is never updated before the server says so,
    and nothing remembers an intent that was sent. Repeating the same
    clicks therefore sends the same intents again. *)
Theorem clicks_keep_state (ins : list Input) (st : AppState) :
  forallb is_click ins = true ->
  fst (run ins st) = st
  /\ snd (run (ins ++ ins) st) = snd (run ins st) ++ snd (run ins st).
Proof.
  intros Hc.
  assert (Hst : fst (run ins st) = st).
  { induction ins as [|i ins IH]; [reflexivity|].
    simpl in Hc. apply andb_true_iff in Hc. destruct Hc as [Hi Hc].
    rewrite run_cons. simpl. rewrite (click_state i st Hi). now apply IH. }
  split; [exact Hst|].
  rewrite run_app. simpl. now rewrite Hst.
Qed.

Lemma clicks_keep_state_witness :
  forallb is_click [UJoin; UJoin] = true
  /\ snd (run ([UJoin; UJoin] ++ [UJoin; UJoin]) typed_state)
     = snd (run [UJoin; UJoin] typed_state)
       ++ snd (run [UJoin; UJoin] typed_state).
Proof.
  split; [reflexivity|].
  apply (clicks_keep_state [UJoin; UJoin] typed_state). reflexivity.
Defined.

(** ** X5: the status after [state] and the guard of [play] *)


(** ** X6: the status is never read back *)

Lemma step_same_but_status (i : Input) (a b : AppState) :
  same_but_status a b ->
  snd (step i a) = snd (step i b)
  /\ same_but_status (fst (step i a)) (fst (step i b)).
Proof.
  intros (Hr & Hj & Hs & Ht).
  destruct i as [v| |idx| |m]; unfold step, fire, same_but_status; simpl.
  - auto.
  - unfold joinRoom. rewrite Hr. destruct (str_truthy _); simpl; auto.
  - unfold play. rewrite Hr, Hj, Hs, Ht. destruct (_ || _); simpl; auto.
  - unfold reset. rewrite Hr. simpl. auto.
  - destruct m as [s| |room|w d|nm arg]; simpl; auto.
    unfold on_gameOver. destruct d; simpl; auto. destruct w; simpl; auto.
Qed.

Lemma run_same_but_status (ins : list Input) (a b : AppState) :
  same_but_status a b ->
  snd (run ins a) = snd (run ins b)
  /\ same_but_status (fst (run ins a)) (fst (run ins b)).
Proof.
  revert a b. induction ins as [|i ins IH]; intros a b Hab.
  - simpl. auto.
  - rewrite !run_cons. simpl.
    destruct (step_same_but_status i a b Hab) as [He Hab'].
    destruct (IH _ _ Hab') as [He' Hab''].
    rewrite He, He'. auto.
Qed.

(** X6. No callback reads the status: a [gameOver] or [full] message, or
    any other change of the status text, alters nothing of what the
    component emits afterwards. In particular the end of a game does not
    lock the board: a click that would send [play] before [gameOver] sends
    it after. *)
Theorem status_messages_do_not_lock (st : AppState) (ins : list Input) :
  (forall w d,
     snd (run ins (fst (step (Recv (MGameOver w d)) st))) = snd (run ins st))
  /\ snd (run ins (fst (step (Recv MFull) st))) = snd (run ins st)
  /\ (forall text,
        snd (run ins (mkApp (roomId st) (joined st) (symbol st) (state st)
                        text))
        = snd (run ins st)).
Proof.
  assert (Hgen : forall text,
            snd (run ins (mkApp (roomId st) (joined st) (symbol st)
                            (state st) text))
            = snd (run ins st)).
  { intros text. apply run_same_but_status. repeat split. }
  split; [|split; [apply (Hgen (lit "Room is full"))|exact Hgen]].
  intros w d. apply run_same_but_status.
  unfold step, fire. simpl. unfold on_gameOver.
  destruct d; [repeat split|]. destruct w; repeat split.
Qed.

(** ** X7: a cell that shows a mark cannot be played *)

(** X7. Every rendered cell plays its own position: the index it hands to
    [play] addresses the board element it displays. Clicking a cell that
    displays a mark (a non-empty string) emits nothing and changes
    nothing. *)
Theorem marked_cell_never_played (st : AppState) (i : nat) (c : CellProps)
    (m : N) (ms : jsstring) :
  render_board (state st) !! i = Some c ->
  value c = Some (m :: ms) ->
  board_at (board (state st)) (click c) = Some (value c)
  /\ step (UPlay (click c)) st = (st, []).
Proof.
  intros Hc Hv. apply render_board_lookup in Hc.
  destruct Hc as (cell & Hcell & ->). simpl in *. subst cell.
  assert (Hat : board_at (board (state st)) (Z.of_nat i) = Some (Some (m :: ms))).
  { unfold board_at.
    destruct (Z.ltb_spec (Z.of_nat i) 0) as [Hlt|_]; [lia|].
    now rewrite Nat2Z.id. }
  split; [exact Hat|].
  unfold step, fire. simpl. unfold play. rewrite Hat. simpl.
  now rewrite orb_true_r.
Qed.

Lemma marked_cell_never_played_witness :
  render_board marked_room !! 0%nat = Some (mkCell (Some (lit "O")) 0 false)
  /\ snd (step (UPlay 0)
            (mkApp (lit "r1") true (Some X) marked_room (lit "Your turn")))
     = [].
Proof.
  split; [reflexivity|].
  destruct (marked_cell_never_played
              (mkApp (lit "r1") true (Some X) marked_room (lit "Your turn"))
              0 (mkCell (Some (lit "O")) 0 false) 79%N [])
    as [_ H]; [reflexivity|reflexivity|].
  simpl click in H. now rewrite H.
Defined.

(** ** X8: what a joined session can send *)

Lemma joined_step (i : Input) (st : AppState) :
  joined st = true -> available st i = true ->
  joined (fst (step i st)) = true
  /\ roomId (fst (step i st)) = roomId st
  /\ Forall (addressed_to (roomId st)) (snd (step i st)).
Proof.
  intros Hj Ha.
  assert (Hj' : joined (fst (step i st)) = true).
  { destruct (step_session i st) as [[H _]|(_ & _ & H & _)]; congruence. }
  split; [exact Hj'|].
  unfold available, render in Ha. rewrite Hj in Ha. simpl in Ha.
  destruct i as [v| |idx| |m]; try discriminate Ha.
  - split; [exact (f_equal roomId (play_state idx st))|].
    unfold step, fire. simpl. unfold play.
    destruct (joined st); simpl; [|constructor].
    destruct (cell_truthy _); simpl; [constructor|].
    destruct (bool_decide_reflect (Some (turn (state st)) = symbol st))
      as [Hs|Hs]; simpl; [|constructor].
    rewrite <- Hs. constructor; [|constructor]. right.
    exists idx, (turn (state st)). reflexivity.
  - split; [reflexivity|]. constructor; [|constructor]. now left.
  - split; [apply step_roomId; intros v; discriminate|].
    rewrite recv_emits_nothing. constructor.
Qed.

(** X8. A joined session that is driven through what is on screen never
    sends [join] again, and its room identifier is frozen: every intent it
    emits from then on is a [reset] or a [play] that carries the room
    identifier the input held when the session became joined. *)
Theorem joined_session_addresses_room (st : AppState) (ins : list Input) :
  joined st = true ->
  ui_valid ins st = true ->
  roomId (fst (run ins st)) = roomId st
  /\ Forall (addressed_to (roomId st)) (snd (run ins st)).
Proof.
  revert st. induction ins as [|i ins IH]; intros st Hj Hv.
  - simpl. split; [reflexivity|constructor].
  - simpl in Hv. apply andb_true_iff in Hv. destruct Hv as [Ha Hv].
    destruct (joined_step i st Hj Ha) as (Hj' & Hr & He).
    destruct (IH _ Hj' Hv) as [Hr' He'].
    rewrite run_cons. simpl. rewrite Hr in Hr', He'.
    split; [exact Hr'|]. apply Forall_app. split; assumption.
Qed.

Lemma joined_session_addresses_room_witness :
  joined ready_state = true
  /\ ui_valid [UPlay 4; Recv (MGameOver None false); UReset] ready_state = true
  /\ snd (run [UPlay 4; Recv (MGameOver None false); UReset] ready_state)
     = [mkEmit "play" (play_payload (lit "r1") 4 X);
        mkEmit "reset" (JStr (lit "r1"))]
  /\ Forall (addressed_to (roomId ready_state))
       (snd (run [UPlay 4; Recv (MGameOver None false); UReset] ready_state)).
Proof.
  split; [reflexivity|]. split; [reflexivity|]. split; [reflexivity|].
  apply (joined_session_addresses_room ready_state
           [UPlay 4; Recv (MGameOver None false); UReset]); reflexivity.
Defined.

(** ** X9: what an unjoined session can send *)

Lemma unjoined_step (i : Input) (st : AppState) :
  joined st = false -> is_joined_msg i = false ->
  joined (fst (step i st)) = false
  /\ Forall (fun e => ev_name e <> "play") (snd (step i st))
  /\ (available st i = true ->
      Forall (fun e => ev_name e = "join") (snd (step i st))).
Proof.
  intros Hj Hi. split.
  { destruct (step_session i st) as [[H _]|(s & -> & _)];
      [congruence|discriminate Hi]. }
  unfold available, render. rewrite Hj. simpl.
  destruct i as [v| |idx| |m].
  - split; [constructor|]. intros _. constructor.
  - assert (H : Forall (fun e => ev_name e = "join") (snd (step UJoin st))).
    { unfold step, fire. simpl. unfold joinRoom.
      destruct (str_truthy _); repeat constructor. }
    split; [|intros _; exact H].
    eapply Forall_impl; [exact H|]. intros e He. rewrite He. discriminate.
  - split; [|discriminate]. unfold step, fire. simpl. unfold play.
    rewrite Hj. simpl. constructor.
  - split; [|discriminate]. repeat constructor. discriminate.
  - rewrite recv_emits_nothing. split; [constructor|]. intros _. constructor.
Qed.

(** X9. Until a [joined] message arrives, a session that is not joined
    never emits [play], whatever is called on it; driven through what is on
    screen it emits nothing but [join]. *)
Theorem unjoined_session_only_joins (st : AppState) (ins : list Input) :
  joined st = false ->
  existsb is_joined_msg ins = false ->
  joined (fst (run ins st)) = false
  /\ Forall (fun e => ev_name e <> "play") (snd (run ins st))
  /\ (ui_valid ins st = true ->
      Forall (fun e => ev_name e = "join") (snd (run ins st))).
Proof.
  revert st. induction ins as [|i ins IH]; intros st Hj Hno.
  - simpl. repeat split; try constructor. exact Hj.
  - simpl in Hno. apply orb_false_iff in Hno. destruct Hno as [Hi Hno].
    destruct (unjoined_step i st Hj Hi) as (Hj' & Hp & Hu).
    destruct (IH _ Hj' Hno) as (Hj'' & Hp' & Hu').
    rewrite run_cons. simpl. split; [exact Hj''|]. split.
    + apply Forall_app. split; assumption.
    + intros Hv. apply andb_true_iff in Hv. destruct Hv as [Ha Hv].
      apply Forall_app. split; [apply Hu; exact Ha|apply Hu'; exact Hv].
Qed.

Lemma unjoined_session_only_joins_witness :
  joined typed_state = false
  /\ existsb is_joined_msg [UJoin; Recv MFull; UChange (lit "r2"); UJoin]
     = false
  /\ snd (run [UJoin; Recv MFull; UChange (lit "r2"); UJoin] typed_state)
     = [mkEmit "join" (JStr (lit "r1")); mkEmit "join" (JStr (lit "r2"))]
  /\ Forall (fun e => ev_name e <> "play")
       (snd (run [UJoin; Recv MFull; UChange (lit "r2"); UJoin] typed_state)).
Proof.
  split; [reflexivity|]. split; [reflexivity|]. split; [reflexivity|].
  apply (unjoined_session_only_joins typed_state
           [UJoin; Recv MFull; UChange (lit "r2"); UJoin]); reflexivity.
Defined.

(** * Further properties of the HTTP module *)

(** ** X10: failures are passed on *)

(** X10. Neither function retries, catches or replaces anything.
    [fetchGameStatus] always issues exactly one request and resolves only
    with the parsed body of its response; a network failure is its own
    rejection. [sendMove] issues at most one request, none when the
    serialization throws (that error is its rejection), and resolves only
    with the parsed body of the response to its POST. *)
Theorem http_failures_propagate (Response : Type)
    (network : Http.Request -> Http.Result Response)
    (json : Response -> Http.Result jsval)
    (stringify : jsval -> Http.Result (option jsstring))
    (base : option jsstring) (moveData : jsval) :
  let get := Http.mkRequest (Http.template base ++ lit "/status")
               Http.GET [] None in
  let post b :=
    Http.mkRequest (Http.template base ++ lit "/move") Http.POST
      [("Content-Type", "application/json")] b in
  let status_call := Http.fetchGameStatus Response network json base in
  let move_call :=
    Http.sendMove Response network json stringify base moveData in
  fst status_call = [get]
  /\ (forall v, snd status_call = Http.Resolved v
                <-> exists res, network get = Http.Resolved res
                                /\ json res = Http.Resolved v)
  /\ (forall e, network get = Http.Rejected e ->
                snd status_call = Http.Rejected e)
  /\ (forall v, snd move_call = Http.Resolved v
                <-> exists b res,
                      stringify moveData = Http.Resolved b
                      /\ fst move_call = [post b]
                      /\ network (post b) = Http.Resolved res
                      /\ json res = Http.Resolved v)
  /\ (forall e, stringify moveData = Http.Rejected e ->
                move_call = ([], Http.Rejected e))
  /\ (forall b e, stringify moveData = Http.Resolved b ->
                  network (post b) = Http.Rejected e ->
                  move_call = ([post b], Http.Rejected e)).
Proof.
  intros get post status_call move_call.
  unfold status_call, move_call, Http.fetchGameStatus, Http.sendMove.
  unfold Http.JSON_stringify, Http.fetch, Http.res_json, Http.bind.
  simpl. fold get.
  split; [destruct (network get); reflexivity|].
  split; [|split; [|split; [|split]]].
  - intros v. destruct (network get) as [res|e]; simpl; split.
    + intros H. exists res. auto.
    + intros (res' & Hr & Hv). now inversion Hr; subst.
    + discriminate.
    + intros (res' & Hr & _). discriminate Hr.
  - intros e He. now rewrite He.
  - intros v. destruct (stringify moveData) as [b|e]; simpl.
    + fold (post b). destruct (network (post b)) as [res|e] eqn:Hn; simpl; split.
      * intros H. exists b, res. auto.
      * intros (b' & res' & Hb & _ & Hr & Hv).
        inversion Hb; subst b'. rewrite Hn in Hr. now inversion Hr; subst.
      * discriminate.
      * intros (b' & res' & Hb & _ & Hr & _).
        inversion Hb; subst b'. rewrite Hn in Hr. discriminate Hr.
    + split; [discriminate|]. intros (b & res & Hb & _). discriminate Hb.
  - intros e He. now rewrite He.
  - intros b e Hb Hn. rewrite Hb. simpl. fold (post b). now rewrite Hn.
Qed.

(** ** X11: an unset base URL *)

(** X11. When no base URL is configured the functions do not fail: the
    value is printed into the template as [undefined], so the requests go
    to the relative paths [undefined/status] and [undefined/move]. *)
Theorem unset_base_url (Response : Type)
    (network : Http.Request -> Http.Result Response)
    (json : Response -> Http.Result jsval)
    (stringify : jsval -> Http.Result (option jsstring))
    (moveData : jsval) :
  fst (Http.fetchGameStatus Response network json None)
  = [Http.mkRequest (lit "undefined/status") Http.GET [] None]
  /\ (forall b, stringify moveData = Http.Resolved b ->
        fst (Http.sendMove Response network json stringify None moveData)
        = [Http.mkRequest (lit "undefined/move") Http.POST
             [("Content-Type", "application/json")] b]).
Proof.
  unfold Http.fetchGameStatus, Http.sendMove.
  unfold Http.JSON_stringify, Http.fetch, Http.res_json, Http.bind.
  split.
  - simpl. now destruct (network _).
  - intros b Hb. rewrite Hb. simpl. now destruct (network _).
Qed.

(** * The cells on screen *)

Lemma render_board_clicks (s : RoomState) (idx : Z) :
  existsb (fun c => click c =? idx) (render_board s) = true
  <-> 0 <= idx < Z.of_nat (length (board s)).
Proof.
  rewrite existsb_exists. split.
  - intros (c & Hin & Hc). apply Z.eqb_eq in Hc. subst idx.
    apply list_elem_of_In, list_elem_of_lookup in Hin.
    destruct Hin as [i Hi]. apply render_board_lookup in Hi.
    destruct Hi as (cell & Hcell & ->). simpl.
    apply lookup_lt_Some in Hcell. lia.
  - intros Hr.
    destruct (lookup_lt_is_Some_2 (board s) (Z.to_nat idx)) as [cell Hcell];
      [lia|].
    exists (mkCell cell idx (cell_highlight s (Z.to_nat idx))). split.
    + apply list_elem_of_In, list_elem_of_lookup. exists (Z.to_nat idx).
      unfold render_board. rewrite list_lookup_imap, Hcell. simpl.
      now rewrite Z2Nat.id by lia.
    + simpl. apply Z.eqb_refl.
Qed.

(** X12. A cell can be clicked exactly when the session is joined and its
    index lies within the local board, so from the screen [play] is never
    called outside the board; and a click on a cell that does send [play]
    found that cell on the board, empty, in the session's own turn. *)
Theorem screen_play_in_range (st : AppState) (idx : Z) :
  (available st (UPlay idx) = true
   <-> joined st = true
       /\ 0 <= idx < Z.of_nat (length (board (state st))))
  /\ (available st (UPlay idx) = true ->
      snd (step (UPlay idx) st) <> [] ->
      exists cell,
        board_at (board (state st)) idx = Some cell
        /\ cell_empty cell
        /\ symbol st = Some (turn (state st))).
Proof.
  assert (Hav : available st (UPlay idx) = true
                <-> joined st = true
                    /\ 0 <= idx < Z.of_nat (length (board (state st)))).
  { unfold available, render. destruct (joined st); simpl.
    - rewrite render_board_clicks. tauto.
    - split; [discriminate|intros [H _]; discriminate H]. }
  split; [exact Hav|].
  intros Ha Hemit. apply Hav in Ha. destruct Ha as [Hj Hr].
  destruct (lookup_lt_is_Some_2 (board (state st)) (Z.to_nat idx))
    as [cell Hcell]; [lia|].
  assert (Hat : board_at (board (state st)) idx = Some cell).
  { unfold board_at. destruct (Z.ltb_spec idx 0); [lia|exact Hcell]. }
  exists cell. split; [exact Hat|].
  unfold step, fire in Hemit. simpl in Hemit. unfold play in Hemit.
  rewrite Hat, Hj in Hemit. simpl in Hemit.
  destruct cell as [[|c r]|]; simpl in Hemit;
    destruct (bool_decide_reflect (Some (turn (state st)) = symbol st))
      as [Hs|Hs]; simpl in Hemit; try (now destruct Hemit);
    (split; [unfold cell_empty; auto|congruence]).
Qed.
